(** * TensorView: a zero-copy, bounds-checked view over a foreign buffer

  Shallow embedding of [src/include/impl/TensorView.h] and the properties
  of its accessors.

  Platform model: [int] is 32 bits wide in two's complement, [size_t] is
  64 bits wide (LP64 / LLP64).  Converting a [size_t] to [int] keeps the
  value modulo [2^32] (the rule of C++20, and what the mainstream compilers
  implemented before it).

  Memory model: the free store is a finite map from block identifiers to
  buffers; a non-null pointer is a block identifier with an element offset.
  A [std::shared_ptr<void>] is either null or the name of a control block
  that carries a use count and the allocation it manages. *)

From stdpp Require Import gmap.
From Stdlib Require Import ZArith Lia Bool.

Local Open Scope Z_scope.

(** ** Machine integers *)

Module MachineInt.

Definition INT_MIN : Z := - 2 ^ 31.
Definition INT_MAX : Z := 2 ^ 31 - 1.
Definition SIZE_MAX : Z := 2 ^ 64 - 1.

(** A value of type [int]. *)
Definition is_int (z : Z) : Prop := INT_MIN <= z <= INT_MAX.

(** A value of type [size_t]. *)
Definition is_size_t (z : Z) : Prop := 0 <= z <= SIZE_MAX.

(** [static_cast<int>(n)]: the unique [int] congruent to [n] modulo [2^32]. *)
Definition static_cast_int (n : Z) : Z := (n + 2 ^ 31) mod 2 ^ 32 - 2 ^ 31.

End MachineInt.
Export MachineInt.

(** ** Pointers and the class layout *)

(** [T*]: null, or element [ofs] of block [b].  Offsets count elements. *)
Inductive pointer : Type :=
| nullptr
| Ptr (b : positive) (ofs : Z).

(** [std::shared_ptr<void>]: [None] is the null handle, [Some c] shares
  ownership through control block [c]. *)
Definition shared_ptr : Type := option positive.

(** The three private members of [TensorView<T>]. *)
Record TensorView : Type := mkTensorView {
  data_ : pointer;
  length_ : Z;
  owner_ : shared_ptr
}.

(** The control block of a shared pointer. *)
Record ControlBlock : Type := mkControlBlock {
  use_count : nat;
  managed : positive
}.

Section View.

(** The element type of the template. *)
Context {T : Type}.

(** ** The free store *)

(** An allocation of [buf_size] elements; [buf_at k] is element [k]. *)
Record Buffer : Type := mkBuffer {
  buf_size : Z;
  buf_at : Z -> T
}.

Record Store : Type := mkStore {
  blocks : gmap positive Buffer;
  owners : gmap positive ControlBlock
}.

Definition in_buffer (buf : Buffer) (k : Z) : bool :=
  (0 <=? k) && (k <? buf_size buf).

(** [p[k]] as an rvalue; [None] when the access leaves live storage. *)
Definition load (m : Store) (p : pointer) (k : Z) : option T :=
  match p with
  | nullptr => None
  | Ptr b ofs =>
      match blocks m !! b with
      | Some buf =>
          if in_buffer buf (ofs + k) then Some (buf_at buf (ofs + k)) else None
      | None => None
      end
  end.

Definition poke (buf : Buffer) (k : Z) (val : T) : Buffer :=
  {| buf_size := buf_size buf;
     buf_at := fun j => if j =? k then val else buf_at buf j |}.

(** [p[k] = val]; [None] when the access leaves live storage. *)
Definition store (m : Store) (p : pointer) (k : Z) (val : T) : option Store :=
  match p with
  | nullptr => None
  | Ptr b ofs =>
      match blocks m !! b with
      | Some buf =>
          if in_buffer buf (ofs + k)
          then Some {| blocks := <[b := poke buf (ofs + k) val]> (blocks m);
                       owners := owners m |}
          else None
      | None => None
      end
  end.

(** Copying a shared pointer adds one to the use count. *)
Definition retain (o : shared_ptr) (m : Store) : Store :=
  match o with
  | None => m
  | Some c =>
      match owners m !! c with
      | Some cb =>
          {| blocks := blocks m;
             owners := <[c := {| use_count := S (use_count cb);
                                 managed := managed cb |}]> (owners m) |}
      | None => m
      end
  end.

(** Destroying a shared pointer takes one from the use count; the last
    holder destroys the control block and frees the managed allocation. *)
Definition release (o : shared_ptr) (m : Store) : Store :=
  match o with
  | None => m
  | Some c =>
      match owners m !! c with
      | Some cb =>
          match use_count cb with
          | S (S n) =>
              {| blocks := blocks m;
                 owners := <[c := {| use_count := S n;
                                     managed := managed cb |}]> (owners m) |}
          | _ =>
              {| blocks := delete (managed cb) (blocks m);
                 owners := delete c (owners m) |}
          end
      | None => m
      end
  end.

(** ** Member functions *)

(** What a call on an object can do: return normally, leave with
    [std::out_of_range], or run into undefined behaviour.  The first two
    carry the object and the store as the call left them. *)
Inductive outcome (A : Type) : Type :=
| Returns (r : A) (this : TensorView) (m : Store)
| Throws_out_of_range (this : TensorView) (m : Store)
| Undefined.
#[local] Arguments Returns {A} r this m.
#[local] Arguments Throws_out_of_range {A} this m.
#[local] Arguments Undefined {A}.

Definition method (A : Type) : Type := TensorView -> Store -> outcome A.

(** Run [f], then [g] on the same object. *)
Definition and_then {A B : Type} (f : method A) (g : A -> method B) : method B :=
  fun this m =>
    match f this m with
    | Returns r this' m' => g r this' m'
    | Throws_out_of_range this' m' => Throws_out_of_range this' m'
    | Undefined => Undefined
    end.

(** [TensorView()] *)
Definition TensorView_default : TensorView :=
  {| data_ := nullptr; length_ := 0; owner_ := None |}.

(** [TensorView(T* data, size_t len, std::shared_ptr<void> owner = nullptr)];
    member [owner_] is copy-constructed from the argument. *)
Definition TensorView_new (data : pointer) (len : Z) (owner : shared_ptr)
    (m : Store) : TensorView * Store :=
  ({| data_ := data; length_ := len; owner_ := owner |}, retain owner m).

(** The implicit copy constructor: member-wise copy. *)
Definition TensorView_copy (other : TensorView) (m : Store) : TensorView * Store :=
  ({| data_ := data_ other; length_ := length_ other; owner_ := owner_ other |},
   retain (owner_ other) m).

(** The implicit destructor: destroys member [owner_]. *)
Definition TensorView_destroy (this : TensorView) (m : Store) : Store :=
  release (owner_ this) m.

(** [T get(int idx) const].  The index ranges over [Z], of which every
    [int] is a member; past the guard [idx >= 1], so that [idx - 1] does not
    overflow. *)
Definition get (idx : Z) : method T :=
  fun this m =>
    if (idx <? 1) || (idx >? static_cast_int (length_ this))
    then Throws_out_of_range this m
    else match load m (data_ this) (idx - 1) with
         | Some x => Returns x this m
         | None => Undefined
         end.

(** [void set(int idx, T val)] *)
Definition set (idx : Z) (val : T) : method unit :=
  fun this m =>
    if (idx <? 1) || (idx >? static_cast_int (length_ this))
    then Throws_out_of_range this m
    else match store m (data_ this) (idx - 1) val with
         | Some m' => Returns tt this m'
         | None => Undefined
         end.

(** [int length() const] *)
Definition length : method Z :=
  fun this m => Returns (static_cast_int (length_ this)) this m.

(** [size_t size() const] *)
Definition size : method Z :=
  fun this m => Returns (length_ this) this m.

(** [T* data() const] *)
Definition data : method pointer :=
  fun this m => Returns (data_ this) this m.

(** [bool empty() const] *)
Definition empty : method bool :=
  fun this m => Returns (length_ this =? 0) this m.

(** [bool isValid() const] *)
Definition isValid : method bool :=
  fun this m =>
    Returns (match data_ this with nullptr => false | Ptr _ _ => true end) this m.

(** ** The public interface as a sum

    One constructor per public member function, so that a statement can
    range over every operation of the class. *)

Inductive operation : Type :=
| Op_get (idx : Z)
| Op_set (idx : Z) (val : T)
| Op_length
| Op_size
| Op_data
| Op_empty
| Op_isValid.

Inductive answer : Type :=
| A_elem (x : T)
| A_void
| A_int (z : Z)
| A_size_t (z : Z)
| A_pointer (p : pointer)
| A_bool (b : bool).

Definition answering {A : Type} (f : method A) (wrap : A -> answer) : method answer :=
  and_then f (fun r this m => Returns (wrap r) this m).

Definition invoke (op : operation) : method answer :=
  match op with
  | Op_get idx => answering (get idx) A_elem
  | Op_set idx val => answering (set idx val) (fun _ => A_void)
  | Op_length => answering length A_int
  | Op_size => answering size A_size_t
  | Op_data => answering data A_pointer
  | Op_empty => answering empty A_bool
  | Op_isValid => answering isValid A_bool
  end.

(** The operations with a [throw] in their body. *)
Definition may_throw (op : operation) : bool :=
  match op with
  | Op_get _ | Op_set _ _ => true
  | _ => false
  end.

(** A sequence of calls on one object; an exception ends the sequence. *)
Fixpoint invoke_all (ops : list operation) : method (list answer) :=
  match ops with
  | [] => fun this m => Returns [] this m
  | op :: rest =>
      and_then (invoke op) (fun a =>
      and_then (invoke_all rest) (fun r this m => Returns (a :: r) this m))
  end.

(** ** Observations on outcomes *)

Definition throws {A : Type} (o : outcome A) : Prop :=
  match o with
  | Throws_out_of_range _ _ => True
  | _ => False
  end.

Definition object_after {A : Type} (o : outcome A) : option TensorView :=
  match o with
  | Returns _ this _ | Throws_out_of_range this _ => Some this
  | Undefined => None
  end.

(** ** Well-formed views *)

(** [length_] is a [size_t] and every element of
    [[data_, data_ + length_)] lies in live storage. *)
Definition valid_view (this : TensorView) (m : Store) : Prop :=
  is_size_t (length_ this) /\
  forall k, 0 <= k < length_ this -> is_Some (load m (data_ this) k).

(** A decidable sufficient condition for the second half of [valid_view]. *)
Definition region_live (m : Store) (p : pointer) (n : Z) : bool :=
  match p with
  | nullptr => n <=? 0
  | Ptr b ofs =>
      match blocks m !! b with
      | Some buf => (0 <=? ofs) && (ofs + n <=? buf_size buf)
      | None => n <=? 0
      end
  end.

(** The storage cell that [p[k]] names, if any. *)
Definition cell (p : pointer) (k : Z) : option (positive * Z) :=
  match p with
  | nullptr => None
  | Ptr b ofs => Some (b, ofs + k)
  end.

(** [m'] has the blocks of [m], each with the size it has in [m]. *)
Definition same_layout (m' m : Store) : Prop :=
  forall b,
    match blocks m' !! b, blocks m !! b with
    | Some buf', Some buf => buf_size buf' = buf_size buf
    | None, None => True
    | _, _ => False
    end.

(** The view holds a share of its owner, when it has one. *)
Definition holds_share (this : TensorView) (m : Store) : Prop :=
  match owner_ this with
  | None => True
  | Some c =>
      match owners m !! c with
      | Some cb => (1 <= use_count cb)%nat
      | None => False
      end
  end.

(** The buffer of a [std::vector] with the elements of [l]. *)
Definition buffer_of_list (d : T) (l : list T) : Buffer :=
  {| buf_size := Z.of_nat (List.length l);
     buf_at := fun k => nth (Z.to_nat k) l d |}.

End View.

Arguments Returns {T A} r this m.
Arguments Throws_out_of_range {T A} this m.
Arguments Undefined {T A}.
Arguments operation : clear implicits.
Arguments answer : clear implicits.
Arguments Store : clear implicits.
Arguments Buffer : clear implicits.

(** ** Concrete stores *)

Module Scenario.

(** [std::make_shared<std::vector<int>>] holding 10, 20, 30, 40, 50,
    wrapped whole by a view that shares it. *)
Definition five : Store Z :=
  {| blocks := {[ 1%positive := buffer_of_list 0 [10; 20; 30; 40; 50] ]};
     owners := {[ 1%positive := {| use_count := 2; managed := 1%positive |} ]} |}.

Definition five_view : TensorView :=
  {| data_ := Ptr 1 0; length_ := 5; owner_ := Some 1%positive |}.

(** A vector without elements. *)
Definition none : Store Z :=
  {| blocks := {[ 1%positive := buffer_of_list 0 [] ]};
     owners := {[ 1%positive := {| use_count := 2; managed := 1%positive |} ]} |}.

Definition none_view : TensorView :=
  {| data_ := Ptr 1 0; length_ := 0; owner_ := Some 1%positive |}.

(** A zero-filled allocation of [n] elements, wrapped whole. *)
Definition zeros (n : Z) : Store Z :=
  {| blocks := {[ 1%positive := {| buf_size := n; buf_at := fun _ => 0 |} ]};
     owners := {[ 1%positive := {| use_count := 2; managed := 1%positive |} ]} |}.

Definition zeros_view (n : Z) : TensorView :=
  {| data_ := Ptr 1 0; length_ := n; owner_ := Some 1%positive |}.

(** The five elements again, the vector held by one shared pointer only. *)
Definition five_sole : Store Z :=
  {| blocks := blocks five;
     owners := {[ 1%positive := {| use_count := 1; managed := 1%positive |} ]} |}.

(** A view of the last three of the five elements. *)
Definition tail_view : TensorView :=
  {| data_ := Ptr 1 2; length_ := 3; owner_ := Some 1%positive |}.

End Scenario.

(** ** Narrowing [size_t] to [int] *)

Section Narrowing.

Lemma static_cast_int_is_int (n : Z) : is_int (static_cast_int n).
Proof.
  unfold is_int, static_cast_int, INT_MIN, INT_MAX.
  change (2 ^ 31) with 2147483648. change (2 ^ 32) with 4294967296.
  pose proof (Z.mod_pos_bound (n + 2147483648) 4294967296). lia.
Qed.

Lemma static_cast_int_fits (n : Z) : is_int n -> static_cast_int n = n.
Proof.
  unfold is_int, static_cast_int, INT_MIN, INT_MAX.
  change (2 ^ 31) with 2147483648. change (2 ^ 32) with 4294967296.
  intros Hn. rewrite Z.mod_small; lia.
Qed.

Lemma static_cast_int_congruent (n : Z) :
  (static_cast_int n - n) mod 2 ^ 32 = 0.
Proof.
  unfold static_cast_int.
  change (2 ^ 31) with 2147483648. change (2 ^ 32) with 4294967296.
  rewrite (Z.mod_eq (n + 2147483648) 4294967296) by lia.
  replace (n + 2147483648 - 4294967296 * ((n + 2147483648) / 4294967296)
           - 2147483648 - n)
    with ((- ((n + 2147483648) / 4294967296)) * 4294967296) by lia.
  apply Z.mod_mul. lia.
Qed.

(** Narrowing never reports more elements than there are. *)
Lemma static_cast_int_le (n : Z) : 0 <= n -> static_cast_int n <= n.
Proof.
  unfold static_cast_int.
  change (2 ^ 31) with 2147483648. change (2 ^ 32) with 4294967296.
  intros Hn.
  pose proof (Z.mod_le (n + 2147483648) 4294967296). lia.
Qed.

(** Below [2^32] the narrowed count is zero only for the count zero. *)
Lemma static_cast_int_zero (n : Z) :
  0 <= n < 2 ^ 32 -> (static_cast_int n = 0 <-> n = 0).
Proof.
  unfold static_cast_int.
  change (2 ^ 31) with 2147483648. change (2 ^ 32) with 4294967296.
  intros Hn. split; [| intros ->; reflexivity].
  intros H0.
  destruct (Z_lt_ge_dec n 2147483648) as [Hlt | Hge].
  - rewrite Z.mod_small in H0; lia.
  - replace (n + 2147483648) with (n - 2147483648 + 1 * 4294967296) in H0 by lia.
    rewrite Z.mod_add in H0 by lia. rewrite Z.mod_small in H0; lia.
Qed.

(** The guard of [get] and [set], read as a proposition. *)
Lemma guard_spec (idx n : Z) :
  (idx <? 1) || (idx >? static_cast_int n) = true <->
  idx < 1 \/ idx > static_cast_int n.
Proof.
  rewrite orb_true_iff, Z.ltb_lt, Z.gtb_gt. reflexivity.
Qed.

Lemma guard_fires (idx n : Z) :
  0 <= n -> idx < 1 \/ idx > n ->
  (idx <? 1) || (idx >? static_cast_int n) = true.
Proof.
  intros Hn Hout. apply guard_spec.
  pose proof (static_cast_int_le n Hn). lia.
Qed.

Lemma guard_passes (idx n : Z) :
  0 <= n <= INT_MAX -> 1 <= idx <= n ->
  (idx <? 1) || (idx >? static_cast_int n) = false.
Proof.
  intros Hn Hin. apply not_true_is_false. rewrite guard_spec.
  rewrite static_cast_int_fits by (unfold is_int, INT_MIN, INT_MAX in *; lia).
  lia.
Qed.

(** Whatever the count, an index that passes the guard is in the region. *)
Lemma guard_sound (idx n : Z) :
  0 <= n ->
  (idx <? 1) || (idx >? static_cast_int n) = false ->
  0 <= idx - 1 < n.
Proof.
  intros Hn Hg. apply not_true_iff_false in Hg. rewrite guard_spec in Hg.
  pose proof (static_cast_int_le n Hn). lia.
Qed.

End Narrowing.

(** ** Loads and stores *)

Section Memory.

Context {T : Type}.
Implicit Types (m : Store T) (p q : pointer) (k j : Z) (val : T).

Lemma store_defined m p k val :
  is_Some (load m p k) -> is_Some (store m p k val).
Proof.
  unfold load, store. destruct p as [| b ofs]; [intros [? ?]; discriminate |].
  destruct (blocks m !! b) as [buf |]; [| intros [? ?]; discriminate].
  destruct (in_buffer buf (ofs + k)); [eauto | intros [? ?]; discriminate].
Qed.

Lemma store_owners m m' p k val :
  store m p k val = Some m' -> owners m' = owners m.
Proof.
  unfold store. destruct p as [| b ofs]; [discriminate |].
  destruct (blocks m !! b) as [buf |]; [| discriminate].
  destruct (in_buffer buf (ofs + k)); [| discriminate].
  intros [= <-]. reflexivity.
Qed.

(** A store is read back through every pointer that names the same cell. *)
Lemma load_store_hit m m' p q k j val :
  store m p k val = Some m' -> cell q j = cell p k -> load m' q j = Some val.
Proof.
  unfold store, load, cell.
  destruct p as [| b ofs]; [discriminate |].
  destruct (blocks m !! b) as [buf |] eqn:Hb; [| discriminate].
  destruct (in_buffer buf (ofs + k)) eqn:Hin; [| discriminate].
  intros [= <-]. destruct q as [| b' ofs']; [discriminate |].
  intros [= -> Hk]. simpl. rewrite lookup_insert_eq.
  unfold in_buffer in *. simpl. rewrite Hk, Hin, Z.eqb_refl. reflexivity.
Qed.

(** Every other cell keeps its content. *)
Lemma load_store_miss m m' p q k j val :
  store m p k val = Some m' -> cell q j <> cell p k -> load m' q j = load m q j.
Proof.
  unfold store, load, cell.
  destruct p as [| b ofs]; [discriminate |].
  destruct (blocks m !! b) as [buf |] eqn:Hb; [| discriminate].
  destruct (in_buffer buf (ofs + k)) eqn:Hin; [| discriminate].
  intros [= <-]. destruct q as [| b' ofs']; [reflexivity |].
  intros Hne. simpl. destruct (decide (b = b')) as [<- | Hbb].
  - rewrite lookup_insert_eq, Hb. unfold in_buffer. simpl.
    destruct (Z.eqb_spec (ofs' + j) (ofs + k)) as [Heq | _]; [| reflexivity].
    exfalso. apply Hne. rewrite Heq. reflexivity.
  - rewrite lookup_insert_ne by assumption. reflexivity.
Qed.

Lemma store_keeps_live m m' p q k j val :
  store m p k val = Some m' -> is_Some (load m q j) -> is_Some (load m' q j).
Proof.
  intros Hst Hq. destruct (decide (cell q j = cell p k)) as [Heq | Hne].
  - rewrite (load_store_hit _ _ _ _ _ _ _ Hst Heq). eauto.
  - rewrite (load_store_miss _ _ _ _ _ _ _ Hst Hne). assumption.
Qed.

Lemma cell_same_pointer p k j : p <> nullptr -> cell p j = cell p k <-> j = k.
Proof.
  destruct p as [| b ofs]; [congruence |]. intros _. simpl. split.
  - intros [= H]. lia.
  - intros ->. reflexivity.
Qed.

Lemma load_defined_nonnull m p k : is_Some (load m p k) -> p <> nullptr.
Proof. destruct p; [intros [? ?]; discriminate | discriminate]. Qed.

(** [region_live] decides liveness of a whole region. *)
Lemma region_live_sound m p n k :
  region_live m p n = true -> 0 <= k < n -> is_Some (load m p k).
Proof.
  unfold region_live, load. destruct p as [| b ofs].
  - intros H%Z.leb_le. lia.
  - destruct (blocks m !! b) as [buf |].
    + intros [H1%Z.leb_le H2%Z.leb_le]%andb_true_iff Hk.
      unfold in_buffer.
      replace (0 <=? ofs + k) with true by (symmetry; apply Z.leb_le; lia).
      replace (ofs + k <? buf_size buf) with true by (symmetry; apply Z.ltb_lt; lia).
      simpl. eauto.
    + intros H%Z.leb_le. lia.
Qed.

Lemma region_live_valid (this : TensorView) m :
  is_size_t (length_ this) ->
  region_live m (data_ this) (length_ this) = true ->
  valid_view this m.
Proof.
  intros Hsz Hlive. split; [assumption |].
  intros k Hk. eapply region_live_sound; eassumption.
Qed.

End Memory.

(** ** The accessors *)

Section Accessors.

Context {T : Type}.
Implicit Types (this : TensorView) (m : Store T) (idx : Z) (val : T).

Lemma get_throws this m idx :
  throws (get idx this m) <->
  (idx <? 1) || (idx >? static_cast_int (length_ this)) = true.
Proof.
  unfold get.
  destruct ((idx <? 1) || (idx >? static_cast_int (length_ this))); simpl.
  - tauto.
  - destruct (load m (data_ this) (idx - 1)); simpl; split;
      first [contradiction | discriminate].
Qed.

Lemma set_throws this m idx val :
  throws (set idx val this m) <->
  (idx <? 1) || (idx >? static_cast_int (length_ this)) = true.
Proof.
  unfold set.
  destruct ((idx <? 1) || (idx >? static_cast_int (length_ this))); simpl.
  - tauto.
  - destruct (store m (data_ this) (idx - 1) val); simpl; split;
      first [contradiction | discriminate].
Qed.

(** On a valid view an index that passes the guard is read. *)
Lemma get_returns this m idx :
  valid_view this m ->
  (idx <? 1) || (idx >? static_cast_int (length_ this)) = false ->
  exists x, load m (data_ this) (idx - 1) = Some x /\
            get idx this m = Returns x this m.
Proof.
  intros [[Hlo _] Hlive] Hg.
  destruct (Hlive (idx - 1) (guard_sound _ _ Hlo Hg)) as [x Hx].
  exists x. split; [assumption |]. unfold get. rewrite Hg, Hx. reflexivity.
Qed.

(** On a valid view an index that passes the guard is written. *)
Lemma set_returns this m idx val :
  valid_view this m ->
  (idx <? 1) || (idx >? static_cast_int (length_ this)) = false ->
  exists m', store m (data_ this) (idx - 1) val = Some m' /\
             set idx val this m = Returns tt this m'.
Proof.
  intros [[Hlo _] Hlive] Hg.
  destruct (store_defined m _ _ val (Hlive (idx - 1) (guard_sound _ _ Hlo Hg)))
    as [m' Hm'].
  exists m'. split; [assumption |]. unfold set. rewrite Hg, Hm'. reflexivity.
Qed.

(** Member functions never leave a valid view invalid. *)
Lemma store_keeps_valid this m m' p k val :
  store m p k val = Some m' -> valid_view this m -> valid_view this m'.
Proof.
  intros Hst [Hsz Hlive]. split; [assumption |].
  intros j Hj. eapply store_keeps_live; eauto.
Qed.

(** X11. When the element count fits [int], [get] throws
    [std::out_of_range] exactly for the indices outside [1, length_].
    Whatever the count, [get(0)], [get(-1)] and [get(length() + 1)] throw
    (the sum taken exactly or wrapped to [int]), and [set] throws for
    exactly the indices for which [get] throws. *)
Theorem out_of_range_iff_outside this m :
  is_size_t (length_ this) ->
  (length_ this <= INT_MAX ->
   forall idx, throws (get idx this m) <-> idx < 1 \/ idx > length_ this) /\
  throws (get 0 this m) /\
  throws (get (-1) this m) /\
  (forall n, length this m = Returns n this m ->
             throws (get (n + 1) this m) /\
             throws (get (static_cast_int (n + 1)) this m)) /\
  (forall idx val, throws (set idx val this m) <-> throws (get idx this m)).
Proof.
  intros [Hlo Hhi]. split; [| split; [| split; [| split]]].
  - intros Hfit idx.
    rewrite get_throws, guard_spec, static_cast_int_fits
      by (unfold is_int, INT_MIN, INT_MAX in *; lia).
    reflexivity.
  - apply get_throws. reflexivity.
  - apply get_throws. reflexivity.
  - intros n [= <-]. split; apply get_throws, guard_spec.
    + lia.
    + set (l := static_cast_int (length_ this)).
      pose proof (static_cast_int_is_int (length_ this)) as Hl. fold l in Hl.
      destruct (Z.eq_dec l INT_MAX) as [Hmax | Hne].
      * left. rewrite Hmax. vm_compute. reflexivity.
      * right. rewrite static_cast_int_fits;
          unfold is_int, INT_MIN, INT_MAX in *; lia.
  - intros idx val. rewrite set_throws, get_throws. reflexivity.
Qed.

(** C9. A [set] whose index lies outside [1, length_] throws and hands
    back the store it was given: the guard precedes the write. *)
Theorem set_outside_leaves_store this m idx val :
  is_size_t (length_ this) ->
  idx < 1 \/ idx > length_ this ->
  set idx val this m = Throws_out_of_range this m.
Proof.
  intros [Hlo _] Hout. unfold set.
  rewrite guard_fires by assumption. reflexivity.
Qed.

(** C3. [size()] returns the element count as it is stored; [length()]
    returns an [int] congruent to it modulo [2^32]; the two agree whenever
    the count is representable as an [int]. *)
Theorem length_narrows_size this m :
  is_size_t (length_ this) ->
  exists n l,
    size this m = Returns n this m /\
    length this m = Returns l this m /\
    n = length_ this /\
    is_int l /\
    (l - n) mod 2 ^ 32 = 0 /\
    (n <= INT_MAX -> l = n).
Proof.
  intros [Hlo _].
  exists (length_ this), (static_cast_int (length_ this)).
  repeat split.
  - apply static_cast_int_is_int.
  - apply static_cast_int_is_int.
  - apply static_cast_int_congruent.
  - intros Hfit. apply static_cast_int_fits.
    unfold is_int, INT_MIN, INT_MAX in *. lia.
Qed.

(** C4, amended. [empty()] is true exactly when [size()] is zero, which
    is when [length()] is zero provided the count is below [2^32];
    [isValid()] is true exactly when the pointer is not null. *)
Theorem empty_and_isValid this m :
  is_size_t (length_ this) ->
  exists e n l v,
    empty this m = Returns e this m /\
    size this m = Returns n this m /\
    length this m = Returns l this m /\
    isValid this m = Returns v this m /\
    (e = true <-> n = 0) /\
    (n < 2 ^ 32 -> (e = true <-> l = 0)) /\
    (v = true <-> data_ this <> nullptr).
Proof.
  intros [Hlo _].
  exists (length_ this =? 0), (length_ this), (static_cast_int (length_ this)),
    (match data_ this with nullptr => false | Ptr _ _ => true end).
  repeat (split; [reflexivity |]).
  split; [apply Z.eqb_eq |]. split.
  - intros Hsmall. rewrite Z.eqb_eq, static_cast_int_zero by lia. reflexivity.
  - destruct (data_ this); split; congruence.
Qed.

(** C5. The default constructor sets a null pointer, length zero and a null
    owner; the resulting view is empty and not valid, [data()] returns the
    null pointer and [length()] returns zero. *)
Theorem default_view_empty_invalid m :
  data_ TensorView_default = nullptr /\
  length_ TensorView_default = 0 /\
  owner_ TensorView_default = None /\
  empty TensorView_default m = Returns true TensorView_default m /\
  isValid TensorView_default m = Returns false TensorView_default m /\
  data TensorView_default m = Returns nullptr TensorView_default m /\
  length TensorView_default m = Returns 0 TensorView_default m.
Proof. repeat split. Qed.

(** Reading and writing through a view whose count fits [int]: the read
    yields the content of cell [idx - 1], a write is read back, and a write
    elsewhere is not seen. *)
Lemma get_set_in_range this m idx val :
  valid_view this m ->
  length_ this <= INT_MAX ->
  1 <= idx <= length_ this ->
  exists x m',
    load m (data_ this) (idx - 1) = Some x /\
    get idx this m = Returns x this m /\
    set idx val this m = Returns tt this m' /\
    and_then (set idx val) (fun _ => get idx) this m = Returns val this m' /\
    (forall j y, j <> idx -> get j this m = Returns y this m ->
                 get j this m' = Returns y this m').
Proof.
  intros Hvalid Hfit Hidx.
  assert (Hg : (idx <? 1) || (idx >? static_cast_int (length_ this)) = false)
    by (apply guard_passes; destruct Hvalid as [[? _] _]; lia).
  destruct (get_returns _ _ _ Hvalid Hg) as (x & Hx & Hget).
  destruct (set_returns _ _ _ val Hvalid Hg) as (m' & Hst & Hset).
  exists x, m'. repeat (split; [assumption |]). split.
  - unfold and_then. rewrite Hset. unfold get. rewrite Hg.
    rewrite (load_store_hit _ _ _ (data_ this) _ (idx - 1) _ Hst eq_refl).
    reflexivity.
  - intros j y Hj. unfold get.
    destruct ((j <? 1) || (j >? static_cast_int (length_ this)));
      [discriminate |].
    rewrite (load_store_miss _ _ _ (data_ this) _ (j - 1) _ Hst).
    + destruct (load m (data_ this) (j - 1)); [| discriminate].
      intros [= ->]. reflexivity.
    + rewrite cell_same_pointer; [lia |].
      eapply load_defined_nonnull. rewrite Hx. eauto.
Qed.

(** C10. A [set] with an index in [1, length_] on a valid view leaves
    every cell other than [idx - 1] as it was, in the view's buffer and in
    the rest of the store; when the count fits [int] it returns and cell
    [idx - 1] holds the value. *)
Theorem set_writes_one_cell this m idx val :
  valid_view this m ->
  1 <= idx <= length_ this ->
  exists m',
    (set idx val this m = Returns tt this m' \/
     set idx val this m = Throws_out_of_range this m') /\
    (forall j, j <> idx - 1 -> load m' (data_ this) j = load m (data_ this) j) /\
    (forall q j, cell q j <> cell (data_ this) (idx - 1) ->
                 load m' q j = load m q j) /\
    owners m' = owners m /\
    (length_ this <= INT_MAX ->
     set idx val this m = Returns tt this m' /\
     load m' (data_ this) (idx - 1) = Some val).
Proof.
  intros Hvalid Hidx.
  destruct ((idx <? 1) || (idx >? static_cast_int (length_ this))) eqn:Hg.
  - exists m. split; [right; unfold set; rewrite Hg; reflexivity |].
    repeat (split; [reflexivity |]).
    intros Hfit. rewrite guard_passes in Hg; [discriminate | | assumption].
    destruct Hvalid as [[? _] _]. lia.
  - destruct (set_returns _ _ _ val Hvalid Hg) as (m' & Hst & Hset).
    assert (Hnn : data_ this <> nullptr).
    { destruct Hvalid as [_ Hlive].
      apply (load_defined_nonnull m _ (idx - 1)), Hlive. lia. }
    exists m'. split; [left; assumption |]. split; [| split; [| split]].
    + intros j Hj. eapply load_store_miss; [eassumption |].
      rewrite cell_same_pointer; assumption.
    + intros q j Hq. eapply load_store_miss; eassumption.
    + eapply store_owners; eassumption.
    + intros _. split; [assumption |].
      eapply load_store_hit; [eassumption | reflexivity].
Qed.

Lemma invoke_observer this m op :
  may_throw op = false -> exists a, invoke op this m = Returns a this m.
Proof. destruct op; first [discriminate | intros _; eexists; reflexivity]. Qed.

(** C6. Every member function other than [get] and [set] returns on every
    object and store.  So do the constructors: the default one yields a view
    that is valid in every store, the other one takes the pointer, the
    length and the owner as they are given, whatever they are. *)
Theorem only_get_and_set_fail m :
  (forall this op, may_throw op = false ->
     exists a, invoke op this m = Returns a this m) /\
  (forall this,
     (exists l, length this m = Returns l this m) /\
     (exists n, size this m = Returns n this m) /\
     (exists p, data this m = Returns p this m) /\
     (exists e, empty this m = Returns e this m) /\
     (exists v, isValid this m = Returns v this m)) /\
  (exists this, TensorView_default = this /\
                valid_view this m /\ holds_share this m) /\
  (forall p len owner,
     exists this m', TensorView_new p len owner m = (this, m') /\
                     data_ this = p /\ length_ this = len /\ owner_ this = owner).
Proof.
  split; [| split; [| split]].
  - intros this op. apply invoke_observer.
  - intros this. repeat split; eexists; reflexivity.
  - exists TensorView_default. split; [reflexivity |]. split; [| exact I].
    apply region_live_valid; [| reflexivity].
    unfold is_size_t, SIZE_MAX. simpl. lia.
  - intros p len owner. do 2 eexists. repeat split.
Qed.

(** One call: the object comes back as it went in, and so do the control
    blocks. *)
Lemma invoke_shape this m op :
  match invoke op this m with
  | Returns _ this' m' | Throws_out_of_range this' m' =>
      this' = this /\ owners m' = owners m
  | Undefined => True
  end.
Proof.
  destruct op as [idx | idx val | | | | |]; simpl;
    unfold answering, and_then, get, set, length, size, data, empty, isValid;
    try (split; reflexivity).
  - destruct ((idx <? 1) || (idx >? static_cast_int (length_ this)));
      [split; reflexivity |].
    destruct (load m (data_ this) (idx - 1)); [split; reflexivity | exact I].
  - destruct ((idx <? 1) || (idx >? static_cast_int (length_ this)));
      [split; reflexivity |].
    destruct (store m (data_ this) (idx - 1) val) as [m' |] eqn:Hst;
      [| exact I].
    split; [reflexivity | eapply store_owners; eassumption].
Qed.

(** One call on a valid view returns or throws, and the view stays valid. *)
Lemma invoke_valid this m op :
  valid_view this m ->
  (exists a m', invoke op this m = Returns a this m' /\ valid_view this m') \/
  invoke op this m = Throws_out_of_range this m.
Proof.
  intros Hvalid.
  destruct op as [idx | idx val | | | | |]; simpl;
    unfold answering, and_then;
    try (left; do 2 eexists; split; [reflexivity | assumption]).
  - destruct ((idx <? 1) || (idx >? static_cast_int (length_ this))) eqn:Hg.
    + right. unfold get. rewrite Hg. reflexivity.
    + left. destruct (get_returns _ _ _ Hvalid Hg) as (x & _ & ->).
      do 2 eexists. split; [reflexivity | assumption].
  - destruct ((idx <? 1) || (idx >? static_cast_int (length_ this))) eqn:Hg.
    + right. unfold set. rewrite Hg. reflexivity.
    + left. destruct (set_returns _ _ _ val Hvalid Hg) as (m' & Hst & ->).
      do 2 eexists. split; [reflexivity |].
      eapply store_keeps_valid; eassumption.
Qed.

(** Any sequence of calls on a valid view ends with the object unchanged. *)
Lemma invoke_all_shape this ops :
  forall m, valid_view this m ->
            object_after (invoke_all ops this m) = Some this.
Proof.
  induction ops as [| op rest IH]; intros m Hvalid; [reflexivity |].
  simpl. unfold and_then at 1.
  destruct (invoke_valid this m op Hvalid) as [(a & m' & -> & Hvalid') | ->];
    [| reflexivity].
  unfold and_then. specialize (IH m' Hvalid').
  destruct (invoke_all rest this m') as [r this' m'' | this' m'' |];
    simpl in *; [assumption | assumption | discriminate].
Qed.

(** C7. Every operation hands the object back with its pointer, length
    and owner as they were, and leaves the control blocks alone; on a valid
    view no operation is undefined, so the object is unchanged after every
    call and after every sequence of calls. *)
Theorem shape_is_immutable this m :
  (forall op,
     match invoke op this m with
     | Returns _ this' m' | Throws_out_of_range this' m' =>
         data_ this' = data_ this /\ length_ this' = length_ this /\
         owner_ this' = owner_ this /\ owners m' = owners m
     | Undefined => True
     end) /\
  (valid_view this m ->
   (forall op, object_after (invoke op this m) = Some this) /\
   (forall ops, object_after (invoke_all ops this m) = Some this)).
Proof.
  split.
  - intros op. pose proof (invoke_shape this m op) as H.
    destruct (invoke op this m); try exact I;
      destruct H as [-> ->]; repeat split.
  - intros Hvalid. split.
    + intros op.
      destruct (invoke_valid this m op Hvalid) as [(a & m' & -> & _) | ->];
        reflexivity.
    + intros ops. apply invoke_all_shape. assumption.
Qed.

(** Copying and then destroying the other copy gives the store back. *)
Lemma release_retain (o : shared_ptr) m :
  match o with
  | None => True
  | Some c => match owners m !! c with
              | Some cb => (1 <= use_count cb)%nat
              | None => False
              end
  end ->
  release o (retain o m) = m.
Proof.
  destruct o as [c |]; [| reflexivity]. simpl.
  destruct (owners m !! c) as [[n b] |] eqn:Hc; [| contradiction].
  simpl. intros Hn. rewrite lookup_insert_eq. simpl.
  destruct n as [| n]; [lia |].
  destruct m as [bl ow]. simpl in *. f_equal.
  rewrite insert_insert_eq. apply insert_id. assumption.
Qed.

Lemma load_retain (o : shared_ptr) m p k : load (retain o m) p k = load m p k.
Proof.
  destruct o as [c |]; [| reflexivity]. simpl.
  destruct (owners m !! c); reflexivity.
Qed.

(** The last holder takes the allocation with it. *)
Lemma release_last c b m :
  owners m !! c = Some {| use_count := 1; managed := b |} ->
  blocks (release (Some c) m) !! b = None /\
  owners (release (Some c) m) !! c = None.
Proof.
  intros Hc. simpl. rewrite Hc. simpl.
  split; apply lookup_delete_eq.
Qed.

(** C8. The copy constructor yields a view with the same pointer, length
    and owner, adds one to the owner's use count and leaves every block of
    the store as it is, so both views read and write the same cells; after
    the original is destroyed the copy behaves as the original did. *)
Theorem copy_outlives_original this m :
  holds_share this m ->
  exists c m1,
    TensorView_copy this m = (c, m1) /\
    (data_ c = data_ this /\ length_ c = length_ this /\
     owner_ c = owner_ this) /\
    blocks m1 = blocks m /\
    (forall o cb, owner_ this = Some o -> owners m !! o = Some cb ->
       owners m1 !! o = Some {| use_count := S (use_count cb);
                                managed := managed cb |}) /\
    (forall idx val,
       get idx c m1 = get idx this m1 /\
       set idx val c m1 = set idx val this m1) /\
    (forall p k, load (TensorView_destroy this m1) p k = load m p k) /\
    (forall idx val,
       get idx c (TensorView_destroy this m1) = get idx this m /\
       set idx val c (TensorView_destroy this m1) = set idx val this m).
Proof.
  intros Hshare.
  assert (Hback : TensorView_destroy this (retain (owner_ this) m) = m)
    by (apply release_retain; exact Hshare).
  exists this, (retain (owner_ this) m).
  split; [destruct this; reflexivity |].
  split; [repeat split |].
  split; [destruct (owner_ this) as [o |]; simpl;
          [destruct (owners m !! o) |]; reflexivity |].
  split.
  { intros o cb Ho Hcb. rewrite Ho. simpl. rewrite Hcb. simpl.
    apply lookup_insert_eq. }
  split; [intros; split; reflexivity |].
  rewrite Hback. split; [reflexivity | intros; split; reflexivity].
Qed.

End Accessors.

(** ** Scenarios *)

Section Sharing.

Context {T : Type}.

(** A write through one view is read through every view of the same buffer,
    at the same index. *)
Lemma write_seen_through_alias (this other : TensorView) (m m' : Store T)
    (idx : Z) (val : T) :
  data_ other = data_ this ->
  set idx val this m = Returns tt this m' ->
  throws (get idx other m') \/ get idx other m' = Returns val other m'.
Proof.
  intros Hsame Hset. unfold set in Hset.
  destruct ((idx <? 1) || (idx >? static_cast_int (length_ this)));
    [discriminate |].
  destruct (store m (data_ this) (idx - 1) val) as [m1 |] eqn:Hst;
    [| discriminate].
  injection Hset as <-. unfold get.
  destruct ((idx <? 1) || (idx >? static_cast_int (length_ other)));
    [left; exact I | right].
  rewrite (load_store_hit _ _ _ (data_ other) _ (idx - 1) _ Hst)
    by (rewrite Hsame; reflexivity).
  reflexivity.
Qed.

End Sharing.

Import Scenario.

Example five_view_valid : valid_view five_view five.
Proof.
  apply region_live_valid; [unfold is_size_t, SIZE_MAX; simpl; lia | reflexivity].
Qed.

Example none_view_empty :
  empty none_view none = Returns true none_view none /\
  get 1 none_view none = Throws_out_of_range none_view none.
Proof. split; reflexivity. Qed.

(** Two views built from one owner: the second sees what the first wrote. *)
Example two_views_one_owner :
  exists v1 v2 m1 m2 m3,
    TensorView_new (Ptr 1 0) 5 (Some 1%positive) five = (v1, m1) /\
    TensorView_new (Ptr 1 0) 5 (Some 1%positive) m1 = (v2, m2) /\
    set 2 77 v1 m2 = Returns tt v1 m3 /\
    get 2 v2 m3 = Returns 77 v2 m3.
Proof. do 5 eexists. repeat split. Qed.

(** A view that was the only holder of its owner leaves nothing behind. *)
Example sole_owner_frees :
  let m := {| blocks := blocks five;
              owners := {[ 1%positive := {| use_count := 1;
                                           managed := 1%positive |} ]} |} in
  get 1 five_view m = Returns 10 five_view m /\
  get 1 five_view (TensorView_destroy five_view m) = Undefined.
Proof. split; reflexivity. Qed.

(** X12. On a valid view whose element count fits [int], for
    every index in [1, length_]: [get] returns the content of cell
    [idx - 1]; [set] followed by [get] at the same index returns the value
    written; a [set] at another index does not change what [get] returns.
    Over the buffer 10, 20, 30, 40, 50: [get(1)] is 10, [get(5)] is 50,
    [get(6)] throws, and [set(3, 99)] followed by [get(3)] gives 99. *)
Theorem get_reads_last_write :
  (forall (T : Type) (this : TensorView) (m : Store T) (idx : Z) (val : T),
     valid_view this m ->
     length_ this <= INT_MAX ->
     1 <= idx <= length_ this ->
     exists x m',
       load m (data_ this) (idx - 1) = Some x /\
       get idx this m = Returns x this m /\
       set idx val this m = Returns tt this m' /\
       and_then (set idx val) (fun _ => get idx) this m = Returns val this m' /\
       (forall j y, j <> idx -> get j this m = Returns y this m ->
                    get j this m' = Returns y this m')) /\
  (get 1 five_view five = Returns 10 five_view five /\
   get 5 five_view five = Returns 50 five_view five /\
   get 6 five_view five = Throws_out_of_range five_view five /\
   exists m',
     set 3 99 five_view five = Returns tt five_view m' /\
     get 3 five_view m' = Returns 99 five_view m').
Proof.
  split.
  - intros T this m idx val. apply get_set_in_range.
  - repeat (split; [reflexivity |]). eexists. split; reflexivity.
Qed.

(** ** Views larger than [INT_MAX] *)

Lemma zeros_view_valid (n : Z) :
  is_size_t n -> valid_view (zeros_view n) (zeros n).
Proof.
  intros Hn. apply region_live_valid; [exact Hn |].
  unfold region_live, zeros_view, zeros. simpl.
  rewrite lookup_singleton_eq. simpl. apply Z.leb_refl.
Qed.

(** C1. The guard misses the claim on a valid view of [2^31] elements:
    [size()] returns [2^31] and [empty()] returns false, index 1 lies in
    [1, length_], and yet [get(1)] and [set(1, 7)] throw
    [std::out_of_range], because the guard compares with the count narrowed
    to [int], here [-2^31]. *)
Theorem get_throws_inside_large_view :
  valid_view (zeros_view (2 ^ 31)) (zeros (2 ^ 31)) /\
  size (zeros_view (2 ^ 31)) (zeros (2 ^ 31)) =
    Returns (2 ^ 31) (zeros_view (2 ^ 31)) (zeros (2 ^ 31)) /\
  empty (zeros_view (2 ^ 31)) (zeros (2 ^ 31)) =
    Returns false (zeros_view (2 ^ 31)) (zeros (2 ^ 31)) /\
  static_cast_int (length_ (zeros_view (2 ^ 31))) = - 2 ^ 31 /\
  1 <= 1 <= length_ (zeros_view (2 ^ 31)) /\
  get 1 (zeros_view (2 ^ 31)) (zeros (2 ^ 31)) =
    Throws_out_of_range (zeros_view (2 ^ 31)) (zeros (2 ^ 31)) /\
  set 1 7 (zeros_view (2 ^ 31)) (zeros (2 ^ 31)) =
    Throws_out_of_range (zeros_view (2 ^ 31)) (zeros (2 ^ 31)) /\
  ~ (throws (get 1 (zeros_view (2 ^ 31)) (zeros (2 ^ 31))) <->
     1 < 1 \/ 1 > length_ (zeros_view (2 ^ 31))).
Proof.
  split; [apply zeros_view_valid; unfold is_size_t, SIZE_MAX; lia |].
  do 3 (split; [reflexivity |]).
  split; [simpl; lia |].
  do 2 (split; [reflexivity |]).
  intros [Hout _]. specialize (Hout I). simpl in Hout. lia.
Qed.

(** C2. The guard misses the claim on a valid view of [2^32 + 5]
    elements: the count narrowed to [int] is 5, index 6 lies in
    [1, length_], and yet [get(6)] and [set(6, 7)] throw
    [std::out_of_range]; no value is returned by [get(6)], nor by [get(6)]
    after [set(6, 7)]. *)
Theorem get_returns_nothing_in_large_view :
  valid_view (zeros_view (2 ^ 32 + 5)) (zeros (2 ^ 32 + 5)) /\
  size (zeros_view (2 ^ 32 + 5)) (zeros (2 ^ 32 + 5)) =
    Returns (2 ^ 32 + 5) (zeros_view (2 ^ 32 + 5)) (zeros (2 ^ 32 + 5)) /\
  static_cast_int (length_ (zeros_view (2 ^ 32 + 5))) = 5 /\
  1 <= 6 <= length_ (zeros_view (2 ^ 32 + 5)) /\
  get 6 (zeros_view (2 ^ 32 + 5)) (zeros (2 ^ 32 + 5)) =
    Throws_out_of_range (zeros_view (2 ^ 32 + 5)) (zeros (2 ^ 32 + 5)) /\
  set 6 7 (zeros_view (2 ^ 32 + 5)) (zeros (2 ^ 32 + 5)) =
    Throws_out_of_range (zeros_view (2 ^ 32 + 5)) (zeros (2 ^ 32 + 5)) /\
  ~ (exists x this m,
       get 6 (zeros_view (2 ^ 32 + 5)) (zeros (2 ^ 32 + 5)) = Returns x this m) /\
  ~ (exists x this m,
       and_then (set 6 7) (fun _ => get 6)
         (zeros_view (2 ^ 32 + 5)) (zeros (2 ^ 32 + 5)) = Returns x this m).
Proof.
  split; [apply zeros_view_valid; unfold is_size_t, SIZE_MAX; lia |].
  do 2 (split; [reflexivity |]).
  split; [simpl; lia |].
  do 2 (split; [reflexivity |]).
  split; intros (x & this & m & H); discriminate H.
Qed.

(** C4, counterexample: a valid view of [2^32] elements is not empty, and
    its [length()] is zero. *)
Lemma nonempty_view_with_length_zero :
  valid_view (zeros_view (2 ^ 32)) (zeros (2 ^ 32)) /\
  ~ (forall e l,
       empty (zeros_view (2 ^ 32)) (zeros (2 ^ 32)) =
         Returns e (zeros_view (2 ^ 32)) (zeros (2 ^ 32)) ->
       length (zeros_view (2 ^ 32)) (zeros (2 ^ 32)) =
         Returns l (zeros_view (2 ^ 32)) (zeros (2 ^ 32)) ->
       (e = true <-> l = 0)).
Proof.
  split.
  - apply zeros_view_valid. unfold is_size_t, SIZE_MAX. lia.
  - intros H. specialize (H false 0 eq_refl eq_refl).
    destruct H as [_ H]. discriminate (H eq_refl).
Qed.

(** ** The statements at concrete views *)

Lemma five_view_size_t : is_size_t (length_ five_view).
Proof. unfold is_size_t, SIZE_MAX. simpl. lia. Qed.

Lemma out_of_range_iff_outside_witness :
  is_size_t (length_ five_view) /\
  length_ five_view <= INT_MAX /\
  (forall idx, throws (get idx five_view five) <-> idx < 1 \/ idx > 5) /\
  throws (get 6 five_view five).
Proof.
  pose proof (out_of_range_iff_outside five_view five five_view_size_t)
    as (Hiff & _ & _ & Hnext & _).
  assert (Hfit : length_ five_view <= INT_MAX) by (vm_compute; discriminate).
  split; [exact five_view_size_t |]. split; [exact Hfit |].
  split; [exact (Hiff Hfit) |].
  exact (proj1 (Hnext 5 eq_refl)).
Defined.

Lemma set_outside_leaves_store_witness :
  is_size_t (length_ five_view) /\
  (6 < 1 \/ 6 > length_ five_view) /\
  set 6 0 five_view five = Throws_out_of_range five_view five.
Proof.
  assert (Hout : 6 < 1 \/ 6 > length_ five_view) by (right; reflexivity).
  split; [exact five_view_size_t |]. split; [exact Hout |].
  exact (set_outside_leaves_store five_view five 6 0 five_view_size_t Hout).
Defined.

Lemma length_narrows_size_witness :
  is_size_t (length_ five_view) /\
  exists n l,
    size five_view five = Returns n five_view five /\
    length five_view five = Returns l five_view five /\
    n = 5 /\ is_int l /\ (l - n) mod 2 ^ 32 = 0 /\ (n <= INT_MAX -> l = n).
Proof.
  split; [exact five_view_size_t |].
  exact (length_narrows_size five_view five five_view_size_t).
Defined.

Lemma empty_and_isValid_witness :
  is_size_t (length_ none_view) /\
  exists e n l v,
    empty none_view none = Returns e none_view none /\
    size none_view none = Returns n none_view none /\
    length none_view none = Returns l none_view none /\
    isValid none_view none = Returns v none_view none /\
    (e = true <-> n = 0) /\
    (n < 2 ^ 32 -> (e = true <-> l = 0)) /\
    (v = true <-> data_ none_view <> nullptr).
Proof.
  assert (Hsz : is_size_t (length_ none_view))
    by (unfold is_size_t, SIZE_MAX; simpl; lia).
  split; [exact Hsz |].
  exact (empty_and_isValid none_view none Hsz).
Defined.

Lemma only_get_and_set_fail_witness :
  may_throw (@Op_empty Z) = false /\
  exists a, invoke (@Op_empty Z) none_view none = Returns a none_view none.
Proof.
  split; [reflexivity |].
  exact (proj1 (only_get_and_set_fail none) none_view (@Op_empty Z) eq_refl).
Defined.

Lemma shape_is_immutable_witness :
  valid_view five_view five /\
  object_after
    (invoke_all [Op_set 3 99; Op_get 3; Op_length; Op_get 6; Op_size]
       five_view five) = Some five_view.
Proof.
  split; [exact five_view_valid |].
  exact (proj2 (proj2 (shape_is_immutable five_view five) five_view_valid) _).
Defined.

Lemma copy_outlives_original_witness :
  holds_share five_view five /\
  exists c m1,
    TensorView_copy five_view five = (c, m1) /\
    forall idx val,
      get idx c (TensorView_destroy five_view m1) = get idx five_view five /\
      set idx val c (TensorView_destroy five_view m1) = set idx val five_view five.
Proof.
  assert (Hshare : holds_share five_view five) by (vm_compute; lia).
  split; [exact Hshare |].
  destruct (copy_outlives_original five_view five Hshare)
    as (c & m1 & Hcopy & _ & _ & _ & _ & _ & Hafter).
  exists c, m1. split; [exact Hcopy | exact Hafter].
Defined.

Lemma set_writes_one_cell_witness :
  valid_view five_view five /\
  1 <= 3 <= length_ five_view /\
  exists m',
    set 3 99 five_view five = Returns tt five_view m' /\
    load m' (data_ five_view) 2 = Some 99 /\
    forall j, j <> 2 -> load m' (data_ five_view) j = load five (data_ five_view) j.
Proof.
  assert (Hidx : 1 <= 3 <= length_ five_view) by (simpl; lia).
  assert (Hfit : length_ five_view <= INT_MAX) by (vm_compute; discriminate).
  split; [exact five_view_valid |]. split; [exact Hidx |].
  destruct (set_writes_one_cell five_view five 3 99 five_view_valid Hidx)
    as (m' & _ & Hothers & _ & _ & Hwritten).
  exists m'. destruct (Hwritten Hfit) as [Hset Hload].
  split; [exact Hset |]. split; [exact Hload | exact Hothers].
Defined.

Lemma get_reads_last_write_witness :
  valid_view five_view five /\
  length_ five_view <= INT_MAX /\
  1 <= 3 <= length_ five_view /\
  exists x m',
    load five (data_ five_view) (3 - 1) = Some x /\
    get 3 five_view five = Returns x five_view five /\
    set 3 99 five_view five = Returns tt five_view m' /\
    and_then (set 3 99) (fun _ => get 3) five_view five =
      Returns 99 five_view m' /\
    (forall j y, j <> 3 -> get j five_view five = Returns y five_view five ->
                 get j five_view m' = Returns y five_view m').
Proof.
  assert (Hidx : 1 <= 3 <= length_ five_view) by (simpl; lia).
  assert (Hfit : length_ five_view <= INT_MAX) by (vm_compute; discriminate).
  split; [exact five_view_valid |]. split; [exact Hfit |].
  split; [exact Hidx |].
  exact (proj1 get_reads_last_write Z five_view five 3 99
           five_view_valid Hfit Hidx).
Defined.

(** ** The guard at every element count *)

Section AnyCount.

Context {T : Type}.
Implicit Types (this other : TensorView) (m : Store T) (idx : Z) (val : T).

Lemma guard_false_iff (idx n : Z) :
  (idx <? 1) || (idx >? static_cast_int n) = false <->
  1 <= idx <= static_cast_int n.
Proof.
  rewrite <- not_true_iff_false, guard_spec. lia.
Qed.

(** X1. On a valid view, whatever its element count, [get] and [set] go
    through exactly for the indices from 1 to the value of [length()], and
    throw for all others; an index that goes through lies in
    [1, length_], so neither function leaves the region of the view. *)
Theorem get_set_follow_length this m idx val :
  valid_view this m ->
  exists l,
    length this m = Returns l this m /\
    (1 <= idx <= l ->
     1 <= idx <= length_ this /\
     (exists x, load m (data_ this) (idx - 1) = Some x /\
                get idx this m = Returns x this m) /\
     (exists m', set idx val this m = Returns tt this m' /\
                 load m' (data_ this) (idx - 1) = Some val)) /\
    (~ 1 <= idx <= l ->
     get idx this m = Throws_out_of_range this m /\
     set idx val this m = Throws_out_of_range this m).
Proof.
  intros Hvalid. exists (static_cast_int (length_ this)).
  split; [reflexivity |]. split.
  - intros Hin. apply guard_false_iff in Hin.
    pose proof Hvalid as [[Hlo _] _].
    pose proof (guard_sound _ _ Hlo Hin) as Hpos.
    split; [lia |]. split.
    + apply get_returns; assumption.
    + destruct (set_returns _ _ _ val Hvalid Hin) as (m' & Hst & Hset).
      exists m'. split; [assumption |].
      eapply load_store_hit; [eassumption | reflexivity].
  - intros Hout. rewrite <- guard_false_iff in Hout.
    apply not_false_iff_true in Hout.
    unfold get, set. rewrite Hout. split; reflexivity.
Qed.

(** X2. A view of [2^31] to [2^32] elements reports a [length()] that is
    zero or negative, and every [get] and [set] on it throws and leaves the
    store as it was. *)
Theorem count_past_int_rejects_all this m :
  2 ^ 31 <= length_ this <= 2 ^ 32 ->
  exists l,
    length this m = Returns l this m /\
    l <= 0 /\
    forall idx val,
      get idx this m = Throws_out_of_range this m /\
      set idx val this m = Throws_out_of_range this m.
Proof.
  intros Hn. exists (static_cast_int (length_ this)).
  assert (Hl : static_cast_int (length_ this) <= 0).
  { unfold static_cast_int.
    change (2 ^ 31) with 2147483648 in *. change (2 ^ 32) with 4294967296 in *.
    replace (length_ this + 2147483648)
      with (length_ this - 2147483648 + 1 * 4294967296) by lia.
    rewrite Z.mod_add by lia.
    destruct (Z.eq_dec (length_ this) 4294967296) as [-> | Hne].
    - vm_compute. discriminate.
    - rewrite Z.mod_small; lia. }
  split; [reflexivity |]. split; [assumption |].
  intros idx val.
  assert (Hg : (idx <? 1) || (idx >? static_cast_int (length_ this)) = true)
    by (apply guard_spec; lia).
  unfold get, set. rewrite Hg. split; reflexivity.
Qed.

End AnyCount.

(** ** Several writes, several views *)

Section Composition.

Context {T : Type}.
Implicit Types (this other : TensorView) (m : Store T) (idx : Z) (val : T).

(** A store changes one buffer's content and nothing of the layout. *)
Lemma store_layout m m' p k val :
  store m p k val = Some m' -> same_layout m' m.
Proof.
  unfold store, same_layout. destruct p as [| b0 ofs]; [discriminate |].
  destruct (blocks m !! b0) as [buf0 |] eqn:Hb0; [| discriminate].
  destruct (in_buffer buf0 (ofs + k)); [| discriminate].
  intros [= <-] b. simpl. destruct (decide (b0 = b)) as [<- | Hne].
  - rewrite lookup_insert_eq, Hb0. reflexivity.
  - rewrite lookup_insert_ne by assumption.
    destruct (blocks m !! b); [reflexivity | exact I].
Qed.

(** Two stores into defined cells, in either order or alone. *)
Lemma store_twice m p k1 k2 v1 v2 :
  is_Some (load m p k1) -> is_Some (load m p k2) ->
  exists m1 m2,
    store m p k1 v1 = Some m1 /\ store m1 p k2 v2 = Some m2 /\
    forall q j,
      load m2 q j =
      if decide (cell q j = cell p k2) then Some v2
      else if decide (cell q j = cell p k1) then Some v1
      else load m q j.
Proof.
  intros H1 H2.
  destruct (store_defined m p k1 v1 H1) as [m1 Hm1].
  destruct (store_defined m1 p k2 v2 (store_keeps_live _ _ _ _ _ _ _ Hm1 H2))
    as [m2 Hm2].
  exists m1, m2. repeat (split; [assumption |]). intros q j.
  destruct (decide (cell q j = cell p k2)) as [E2 | N2].
  - eapply load_store_hit; eassumption.
  - rewrite (load_store_miss _ _ _ _ _ _ _ Hm2 N2).
    destruct (decide (cell q j = cell p k1)) as [E1 | N1].
    + eapply load_store_hit; eassumption.
    + eapply load_store_miss; eassumption.
Qed.

(** X3. Two views into one allocation, the second starting [d] elements
    after the first: what [set(idx, val)] writes through the first is what
    [get(idx - d)] reads through the second, and the second reads every
    other index as before. *)
Theorem write_seen_through_window this other m m' b ofs d idx val :
  data_ this = Ptr b ofs ->
  data_ other = Ptr b (ofs + d) ->
  set idx val this m = Returns tt this m' ->
  forall j,
    (j + d = idx ->
     1 <= j <= static_cast_int (length_ other) ->
     get j other m' = Returns val other m') /\
    (j + d <> idx ->
     forall y, get j other m = Returns y other m ->
               get j other m' = Returns y other m').
Proof.
  intros Hthis Hother Hset j. unfold set in Hset.
  destruct ((idx <? 1) || (idx >? static_cast_int (length_ this)));
    [discriminate |].
  destruct (store m (data_ this) (idx - 1) val) as [m1 |] eqn:Hst;
    [| discriminate].
  injection Hset as <-. split.
  - intros Hj Hin. apply guard_false_iff in Hin. unfold get. rewrite Hin.
    rewrite (load_store_hit _ _ _ (data_ other) _ (j - 1) _ Hst); [reflexivity |].
    rewrite Hthis, Hother. simpl. do 2 f_equal. lia.
  - intros Hj y. unfold get.
    destruct ((j <? 1) || (j >? static_cast_int (length_ other)));
      [discriminate |].
    rewrite (load_store_miss _ _ _ (data_ other) _ (j - 1) _ Hst).
    + destruct (load m (data_ other) (j - 1)); [| discriminate].
      intros [= ->]. reflexivity.
    + rewrite Hthis, Hother. simpl. intros [= H]. lia.
Qed.

(** X4. The last write wins: after [set(idx, v1)] and [set(idx, v2)],
    [get(idx)] returns [v2], and every cell of the store holds what it would
    hold had only [set(idx, v2)] been called. *)
Theorem second_set_overwrites this m idx v1 v2 :
  valid_view this m ->
  1 <= idx <= static_cast_int (length_ this) ->
  exists m1 m2 m2',
    set idx v1 this m = Returns tt this m1 /\
    set idx v2 this m1 = Returns tt this m2 /\
    get idx this m2 = Returns v2 this m2 /\
    set idx v2 this m = Returns tt this m2' /\
    forall q j, load m2 q j = load m2' q j.
Proof.
  intros Hvalid Hin. apply guard_false_iff in Hin.
  pose proof Hvalid as [[Hlo _] Hlive].
  pose proof (Hlive _ (guard_sound _ _ Hlo Hin)) as Hcell.
  destruct (store_twice m (data_ this) (idx - 1) (idx - 1) v1 v2 Hcell Hcell)
    as (m1 & m2 & Hm1 & Hm2 & Hloads).
  destruct (store_defined m _ _ v2 Hcell) as [m2' Hm2'].
  exists m1, m2, m2'. unfold set, get. rewrite Hin, Hm1, Hm2, Hm2'.
  repeat (split; [reflexivity |]). split; [| split; [reflexivity |]].
  - rewrite Hloads. rewrite decide_True by reflexivity. reflexivity.
  - intros q j. rewrite Hloads.
    destruct (decide (cell q j = cell (data_ this) (idx - 1))) as [E | N].
    + symmetry. eapply load_store_hit; eassumption.
    + symmetry. eapply load_store_miss; eassumption.
Qed.

(** X5. Writes at different indices commute: [set(i, a)] then [set(j, b)]
    leaves every cell of the store as [set(j, b)] then [set(i, a)] does. *)
Theorem sets_at_distinct_indices_commute this m i j a b :
  valid_view this m ->
  1 <= i <= static_cast_int (length_ this) ->
  1 <= j <= static_cast_int (length_ this) ->
  i <> j ->
  exists m1 m2 n1 n2,
    set i a this m = Returns tt this m1 /\
    set j b this m1 = Returns tt this m2 /\
    set j b this m = Returns tt this n1 /\
    set i a this n1 = Returns tt this n2 /\
    forall q k, load m2 q k = load n2 q k.
Proof.
  intros Hvalid Hi Hj Hne.
  apply guard_false_iff in Hi. apply guard_false_iff in Hj.
  pose proof Hvalid as [[Hlo _] Hlive].
  pose proof (Hlive _ (guard_sound _ _ Hlo Hi)) as Hci.
  pose proof (Hlive _ (guard_sound _ _ Hlo Hj)) as Hcj.
  destruct (store_twice m (data_ this) (i - 1) (j - 1) a b Hci Hcj)
    as (m1 & m2 & Hm1 & Hm2 & Hl).
  destruct (store_twice m (data_ this) (j - 1) (i - 1) b a Hcj Hci)
    as (n1 & n2 & Hn1 & Hn2 & Hr).
  exists m1, m2, n1, n2. unfold set. rewrite Hi, Hj, Hm1, Hm2, Hn1, Hn2.
  repeat (split; [reflexivity |]).
  intros q k. rewrite Hl, Hr.
  assert (Hdiff : cell (data_ this) (i - 1) <> cell (data_ this) (j - 1)).
  { rewrite cell_same_pointer by (eapply load_defined_nonnull; eassumption).
    lia. }
  destruct (decide (cell q k = cell (data_ this) (j - 1))) as [Ej | Nj];
    destruct (decide (cell q k = cell (data_ this) (i - 1))) as [Ei | Ni];
    try reflexivity.
  exfalso. apply Hdiff. rewrite <- Ei, <- Ej. reflexivity.
Qed.

(** X6. A call on a valid view never allocates, frees or resizes a block
    and never touches a control block; every view that was valid before
    the call is valid after it. *)
Theorem calls_keep_layout_and_views this other m op :
  valid_view this m ->
  valid_view other m ->
  exists m',
    ((exists a, invoke op this m = Returns a this m') \/
     invoke op this m = Throws_out_of_range this m') /\
    same_layout m' m /\
    owners m' = owners m /\
    valid_view this m' /\
    valid_view other m'.
Proof.
  intros Hthis Hother.
  assert (Hsame : same_layout m m)
    by (intros b; destruct (blocks m !! b); [reflexivity | exact I]).
  assert (Hkeep : forall o : outcome (answer T),
             (exists a, o = Returns a this m) \/ o = Throws_out_of_range this m ->
             exists m',
               ((exists a, o = Returns a this m') \/
                o = Throws_out_of_range this m') /\
               same_layout m' m /\ owners m' = owners m /\
               valid_view this m' /\ valid_view other m')
    by (intros o Ho; exists m; repeat (split; try assumption)).
  destruct (invoke_valid this m op Hthis) as [(a & m' & Hret & _) | Hthrow];
    [| apply Hkeep; right; assumption].
  destruct op as [idx | idx val | | | | |];
    try (apply Hkeep; left; eexists; reflexivity).
  - apply Hkeep. left. revert Hret. simpl. unfold answering, and_then, get.
    destruct ((idx <? 1) || (idx >? static_cast_int (length_ this)));
      [discriminate |].
    destruct (load m (data_ this) (idx - 1)); [| discriminate].
    intros _. eexists. reflexivity.
  - exists m'. split; [left; eexists; eassumption |].
    revert Hret. simpl. unfold answering, and_then, set.
    destruct ((idx <? 1) || (idx >? static_cast_int (length_ this)));
      [discriminate |].
    destruct (store m (data_ this) (idx - 1) val) as [m1 |] eqn:Hst;
      [| discriminate].
    intros [= _ <-].
    split; [eapply store_layout; eassumption |].
    split; [eapply store_owners; eassumption |].
    split; eapply store_keeps_valid; eassumption.
Qed.

End Composition.

(** ** Lifetimes *)

Section Lifetime.

Context {T : Type}.
Implicit Types (this other : TensorView) (m s : Store T) (idx : Z) (val : T)
  (c b : positive) (cb : ControlBlock).

Lemma retain_shared c cb m :
  owners m !! c = Some cb ->
  blocks (retain (Some c) m) = blocks m /\
  owners (retain (Some c) m) !! c =
    Some {| use_count := S (use_count cb); managed := managed cb |}.
Proof.
  intros Hc. simpl. rewrite Hc. simpl. split; [reflexivity |].
  apply lookup_insert_eq.
Qed.

Lemma release_shared c cb m :
  owners m !! c = Some cb ->
  (2 <= use_count cb)%nat ->
  blocks (release (Some c) m) = blocks m /\
  owners (release (Some c) m) !! c =
    Some {| use_count := use_count cb - 1; managed := managed cb |}.
Proof.
  intros Hc Hn. simpl. rewrite Hc.
  destruct (use_count cb) as [| [| n]] eqn:Hu; [lia | lia |].
  simpl. split; [reflexivity |].
  rewrite lookup_insert_eq. do 2 f_equal; lia.
Qed.

Lemma copies_count this c cb m (n : nat) :
  owner_ this = Some c ->
  owners m !! c = Some cb ->
  blocks (Nat.iter n (fun s => snd (TensorView_copy this s)) m) = blocks m /\
  owners (Nat.iter n (fun s => snd (TensorView_copy this s)) m) !! c =
    Some {| use_count := use_count cb + n; managed := managed cb |}.
Proof.
  intros Ho Hc. induction n as [| n [IHb IHo]].
  - simpl. split; [reflexivity |]. rewrite Hc. destruct cb as [u bm].
    simpl. do 2 f_equal; lia.
  - assert (E : forall s, snd (TensorView_copy this s) = retain (Some c) s)
      by (intros s; unfold TensorView_copy; rewrite Ho; reflexivity).
    rewrite Nat.iter_succ, E.
    destruct (retain_shared c _ _ IHo) as [Hb' Ho'].
    rewrite Hb', Ho', IHb. split; [reflexivity |].
    simpl. do 2 f_equal; lia.
Qed.

Lemma destroys_count this c cb s (k : nat) :
  owner_ this = Some c ->
  owners s !! c = Some cb ->
  (k < use_count cb)%nat ->
  blocks (Nat.iter k (TensorView_destroy this) s) = blocks s /\
  owners (Nat.iter k (TensorView_destroy this) s) !! c =
    Some {| use_count := use_count cb - k; managed := managed cb |}.
Proof.
  intros Ho Hc. induction k as [| k IH]; intros Hk.
  - simpl. split; [reflexivity |]. rewrite Hc. destruct cb as [u bm].
    simpl. do 2 f_equal; lia.
  - destruct (IH ltac:(lia)) as [IHb IHo].
    assert (E : forall s', TensorView_destroy this s' = release (Some c) s')
      by (intros s'; unfold TensorView_destroy; rewrite Ho; reflexivity).
    rewrite Nat.iter_succ, E.
    destruct (release_shared c _ _ IHo ltac:(simpl; lia)) as [Hb' Ho'].
    rewrite Hb', Ho', IHb. split; [reflexivity |].
    simpl. do 2 f_equal; lia.
Qed.

(** What [get] returns depends on the blocks of the store alone. *)
Lemma get_same_blocks other m m' idx x :
  blocks m' = blocks m ->
  get idx other m = Returns x other m ->
  get idx other m' = Returns x other m'.
Proof.
  intros Hb. unfold get, load. rewrite Hb.
  destruct ((idx <? 1) || (idx >? static_cast_int (length_ other)));
    [discriminate |].
  destruct (data_ other) as [| b ofs]; [discriminate |].
  destruct (blocks m !! b) as [buf |]; [| discriminate].
  destruct (in_buffer buf (ofs + (idx - 1))); [| discriminate].
  intros [= <-]. reflexivity.
Qed.

(** X7. A buffer outlives every holder but the last: after [n] copies of
    a view and [k] destructions, with [k] below the use count plus [n], no
    block has been freed, the use count is up by [n - k], and [get] through
    any view returns what it returned at the start. *)
Theorem buffer_lives_while_shared this c cb m (n k : nat) :
  owner_ this = Some c ->
  owners m !! c = Some cb ->
  (k < use_count cb + n)%nat ->
  exists m',
    m' = Nat.iter k (TensorView_destroy this)
           (Nat.iter n (fun s => snd (TensorView_copy this s)) m) /\
    blocks m' = blocks m /\
    owners m' !! c =
      Some {| use_count := use_count cb + n - k; managed := managed cb |} /\
    forall other idx x,
      get idx other m = Returns x other m ->
      get idx other m' = Returns x other m'.
Proof.
  intros Ho Hc Hk. eexists. split; [reflexivity |].
  destruct (copies_count this c cb m n Ho Hc) as [Hb1 Ho1].
  destruct (destroys_count this c _ _ k Ho Ho1 ltac:(simpl; lia)) as [Hb2 Ho2].
  assert (Hb : blocks (Nat.iter k (TensorView_destroy this)
                         (Nat.iter n (fun s => snd (TensorView_copy this s)) m))
               = blocks m) by (rewrite Hb2; exact Hb1).
  split; [exact Hb |]. split; [exact Ho2 |].
  intros other idx x. apply get_same_blocks. exact Hb.
Qed.

(** X8. Destroying the last holder frees the managed block and nothing
    else; from then on [get] and [set] through any view into that block are
    undefined for every index that passes the guard. *)
Theorem last_destroy_leaves_views_dangling this other c b ofs m idx val :
  owner_ this = Some c ->
  owners m !! c = Some {| use_count := 1; managed := b |} ->
  data_ other = Ptr b ofs ->
  1 <= idx <= static_cast_int (length_ other) ->
  blocks (TensorView_destroy this m) = delete b (blocks m) /\
  owners (TensorView_destroy this m) = delete c (owners m) /\
  get idx other (TensorView_destroy this m) = Undefined /\
  set idx val other (TensorView_destroy this m) = Undefined.
Proof.
  intros Ho Hc Hp Hin. apply guard_false_iff in Hin.
  unfold TensorView_destroy. rewrite Ho. simpl. rewrite Hc. simpl.
  repeat (split; [reflexivity |]).
  unfold get, set, load, store. rewrite Hin, Hp. simpl.
  rewrite lookup_delete_eq. split; reflexivity.
Qed.

(** X9. The owner argument of the constructor decides the lifetime.  Let
    the creator hold the only share of a buffer.  A view built with that
    owner keeps the buffer: once the creator's handle is gone the store is
    as before the construction and [get] returns the same values.  A view
    built without owner takes no share: once the creator's handle is gone
    [get] and [set] are undefined at every index that passes the guard. *)
Theorem owner_argument_decides_lifetime c b ofs len m :
  owners m !! c = Some {| use_count := 1; managed := b |} ->
  (exists v m1,
     TensorView_new (Ptr b ofs) len (Some c) m = (v, m1) /\
     owners m1 !! c = Some {| use_count := 2; managed := b |} /\
     release (Some c) m1 = m /\
     forall idx x, get idx v m = Returns x v m ->
                   get idx v (release (Some c) m1) =
                   Returns x v (release (Some c) m1)) /\
  (exists v m1,
     TensorView_new (Ptr b ofs) len None m = (v, m1) /\
     m1 = m /\
     forall idx val,
       1 <= idx <= static_cast_int len ->
       get idx v (release (Some c) m1) = Undefined /\
       set idx val v (release (Some c) m1) = Undefined).
Proof.
  intros Hc. split.
  - do 2 eexists. split; [reflexivity |].
    assert (Hback : release (Some c) (retain (Some c) m) = m)
      by (apply release_retain; rewrite Hc; simpl; lia).
    split; [| split].
    + apply (retain_shared c _ m Hc).
    + exact Hback.
    + intros idx x Hget. rewrite Hback. exact Hget.
  - do 2 eexists. split; [reflexivity |]. split; [reflexivity |].
    intros idx val Hin. apply guard_false_iff in Hin.
    simpl retain. unfold get, set, load, store. simpl.
    rewrite Hin, Hc. simpl. rewrite lookup_delete_eq. split; reflexivity.
Qed.

End Lifetime.

(** ** No check but the guard *)

Section Unchecked.

Context {T : Type}.
Implicit Types (this : TensorView) (m : Store T) (idx : Z) (val : T).

(** X10. The index guard is the only check: [isValid] is not consulted
    and the length is taken on trust.  With a null pointer, or with a count
    that reaches past the end of the allocation, an index that passes the
    guard makes [get] and [set] undefined. *)
Theorem guard_is_the_only_check this m idx val :
  1 <= idx <= static_cast_int (length_ this) ->
  data_ this = nullptr \/
  (exists b ofs buf,
     data_ this = Ptr b ofs /\ blocks m !! b = Some buf /\
     buf_size buf <= ofs + (idx - 1)) ->
  get idx this m = Undefined /\ set idx val this m = Undefined.
Proof.
  intros Hin%guard_false_iff Hbad. unfold get, set. rewrite Hin.
  destruct Hbad as [-> | (b & ofs & buf & -> & Hb & Hpast)]; [split; reflexivity |].
  unfold load, store. rewrite Hb. unfold in_buffer.
  replace (ofs + (idx - 1) <? buf_size buf) with false
    by (symmetry; apply Z.ltb_ge; assumption).
  rewrite andb_false_r. split; reflexivity.
Qed.

End Unchecked.

(** ** The further statements at concrete views *)

Lemma tail_view_valid : valid_view tail_view five.
Proof.
  apply region_live_valid; [unfold is_size_t, SIZE_MAX; simpl; lia | reflexivity].
Qed.

Lemma large_view_valid : valid_view (zeros_view (2 ^ 32 + 5)) (zeros (2 ^ 32 + 5)).
Proof. apply zeros_view_valid. unfold is_size_t, SIZE_MAX. lia. Qed.

Lemma get_set_follow_length_witness :
  valid_view (zeros_view (2 ^ 32 + 5)) (zeros (2 ^ 32 + 5)) /\
  exists l,
    length (zeros_view (2 ^ 32 + 5)) (zeros (2 ^ 32 + 5)) =
      Returns l (zeros_view (2 ^ 32 + 5)) (zeros (2 ^ 32 + 5)) /\
    (1 <= 3 <= l ->
     1 <= 3 <= length_ (zeros_view (2 ^ 32 + 5)) /\
     (exists x, load (zeros (2 ^ 32 + 5)) (data_ (zeros_view (2 ^ 32 + 5))) (3 - 1)
                  = Some x /\
                get 3 (zeros_view (2 ^ 32 + 5)) (zeros (2 ^ 32 + 5)) =
                  Returns x (zeros_view (2 ^ 32 + 5)) (zeros (2 ^ 32 + 5))) /\
     (exists m', set 3 7 (zeros_view (2 ^ 32 + 5)) (zeros (2 ^ 32 + 5)) =
                   Returns tt (zeros_view (2 ^ 32 + 5)) m' /\
                 load m' (data_ (zeros_view (2 ^ 32 + 5))) (3 - 1) = Some 7)) /\
    (~ 1 <= 3 <= l ->
     get 3 (zeros_view (2 ^ 32 + 5)) (zeros (2 ^ 32 + 5)) =
       Throws_out_of_range (zeros_view (2 ^ 32 + 5)) (zeros (2 ^ 32 + 5)) /\
     set 3 7 (zeros_view (2 ^ 32 + 5)) (zeros (2 ^ 32 + 5)) =
       Throws_out_of_range (zeros_view (2 ^ 32 + 5)) (zeros (2 ^ 32 + 5))).
Proof.
  split; [exact large_view_valid |].
  exact (get_set_follow_length _ _ 3 7 large_view_valid).
Defined.

Lemma count_past_int_rejects_all_witness :
  2 ^ 31 <= length_ (zeros_view (2 ^ 31)) <= 2 ^ 32 /\
  exists l,
    length (zeros_view (2 ^ 31)) (zeros (2 ^ 31)) =
      Returns l (zeros_view (2 ^ 31)) (zeros (2 ^ 31)) /\
    l <= 0 /\
    forall idx val,
      get idx (zeros_view (2 ^ 31)) (zeros (2 ^ 31)) =
        Throws_out_of_range (zeros_view (2 ^ 31)) (zeros (2 ^ 31)) /\
      set idx val (zeros_view (2 ^ 31)) (zeros (2 ^ 31)) =
        Throws_out_of_range (zeros_view (2 ^ 31)) (zeros (2 ^ 31)).
Proof.
  assert (H : 2 ^ 31 <= length_ (zeros_view (2 ^ 31)) <= 2 ^ 32) by (simpl; lia).
  split; [exact H |].
  exact (count_past_int_rejects_all (zeros_view (2 ^ 31)) (zeros (2 ^ 31)) H).
Defined.

Lemma write_seen_through_window_witness :
  exists m',
    set 4 99 five_view five = Returns tt five_view m' /\
    1 <= 2 <= static_cast_int (length_ tail_view) /\
    get 2 tail_view m' = Returns 99 tail_view m'.
Proof.
  assert (Hin : 1 <= 2 <= static_cast_int (length_ tail_view))
    by (vm_compute; split; discriminate).
  eexists. split; [reflexivity |]. split; [exact Hin |].
  exact (proj1 (write_seen_through_window five_view tail_view five _ 1 0 2 4 99
                  eq_refl eq_refl eq_refl 2) eq_refl Hin).
Defined.

Lemma second_set_overwrites_witness :
  valid_view five_view five /\
  1 <= 3 <= static_cast_int (length_ five_view) /\
  exists m1 m2 m2',
    set 3 98 five_view five = Returns tt five_view m1 /\
    set 3 99 five_view m1 = Returns tt five_view m2 /\
    get 3 five_view m2 = Returns 99 five_view m2 /\
    set 3 99 five_view five = Returns tt five_view m2' /\
    forall q j, load m2 q j = load m2' q j.
Proof.
  assert (Hin : 1 <= 3 <= static_cast_int (length_ five_view))
    by (vm_compute; split; discriminate).
  split; [exact five_view_valid |]. split; [exact Hin |].
  exact (second_set_overwrites five_view five 3 98 99 five_view_valid Hin).
Defined.

Lemma sets_at_distinct_indices_commute_witness :
  valid_view five_view five /\
  1 <= 2 <= static_cast_int (length_ five_view) /\
  1 <= 5 <= static_cast_int (length_ five_view) /\
  2 <> 5 /\
  exists m1 m2 n1 n2,
    set 2 21 five_view five = Returns tt five_view m1 /\
    set 5 51 five_view m1 = Returns tt five_view m2 /\
    set 5 51 five_view five = Returns tt five_view n1 /\
    set 2 21 five_view n1 = Returns tt five_view n2 /\
    forall q k, load m2 q k = load n2 q k.
Proof.
  assert (H2 : 1 <= 2 <= static_cast_int (length_ five_view))
    by (vm_compute; split; discriminate).
  assert (H5 : 1 <= 5 <= static_cast_int (length_ five_view))
    by (vm_compute; split; discriminate).
  assert (Hne : 2 <> 5) by discriminate.
  split; [exact five_view_valid |]. split; [exact H2 |].
  split; [exact H5 |]. split; [exact Hne |].
  exact (sets_at_distinct_indices_commute five_view five 2 5 21 51
           five_view_valid H2 H5 Hne).
Defined.

Lemma calls_keep_layout_and_views_witness :
  valid_view five_view five /\
  valid_view tail_view five /\
  exists m',
    ((exists a, invoke (Op_set 3 99) five_view five = Returns a five_view m') \/
     invoke (Op_set 3 99) five_view five = Throws_out_of_range five_view m') /\
    same_layout m' five /\
    owners m' = owners five /\
    valid_view five_view m' /\
    valid_view tail_view m'.
Proof.
  split; [exact five_view_valid |]. split; [exact tail_view_valid |].
  exact (calls_keep_layout_and_views five_view tail_view five (Op_set 3 99)
           five_view_valid tail_view_valid).
Defined.

Lemma buffer_lives_while_shared_witness :
  owner_ five_view = Some 1%positive /\
  owners five !! 1%positive = Some {| use_count := 2; managed := 1%positive |} /\
  (4 < 2 + 3)%nat /\
  exists m',
    m' = Nat.iter 4 (TensorView_destroy five_view)
           (Nat.iter 3 (fun s => snd (TensorView_copy five_view s)) five) /\
    blocks m' = blocks five /\
    owners m' !! 1%positive = Some {| use_count := 1; managed := 1%positive |} /\
    forall other idx x,
      get idx other five = Returns x other five ->
      get idx other m' = Returns x other m'.
Proof.
  assert (Hk : (4 < 2 + 3)%nat) by lia.
  split; [reflexivity |]. split; [reflexivity |]. split; [exact Hk |].
  exact (buffer_lives_while_shared five_view 1%positive
           {| use_count := 2; managed := 1%positive |} five 3 4
           eq_refl eq_refl Hk).
Defined.

Lemma last_destroy_leaves_views_dangling_witness :
  owner_ five_view = Some 1%positive /\
  owners five_sole !! 1%positive = Some {| use_count := 1; managed := 1%positive |} /\
  data_ tail_view = Ptr 1 2 /\
  1 <= 1 <= static_cast_int (length_ tail_view) /\
  get 1 tail_view five_sole = Returns 30 tail_view five_sole /\
  get 1 tail_view (TensorView_destroy five_view five_sole) = Undefined /\
  set 1 0 tail_view (TensorView_destroy five_view five_sole) = Undefined.
Proof.
  assert (Hin : 1 <= 1 <= static_cast_int (length_ tail_view))
    by (vm_compute; split; discriminate).
  split; [reflexivity |]. split; [reflexivity |]. split; [reflexivity |].
  split; [exact Hin |]. split; [reflexivity |].
  exact (proj2 (proj2 (last_destroy_leaves_views_dangling five_view tail_view
                         1%positive 1%positive 2 five_sole 1 0
                         eq_refl eq_refl eq_refl Hin))).
Defined.

Lemma owner_argument_decides_lifetime_witness :
  owners five_sole !! 1%positive = Some {| use_count := 1; managed := 1%positive |} /\
  (exists v m1,
     TensorView_new (Ptr 1 0) 5 (Some 1%positive) five_sole = (v, m1) /\
     release (Some 1%positive) m1 = five_sole) /\
  (exists v m1,
     TensorView_new (Ptr 1 0) 5 None five_sole = (v, m1) /\
     get 1 v (release (Some 1%positive) m1) = Undefined).
Proof.
  split; [reflexivity |].
  destruct (owner_argument_decides_lifetime 1%positive 1%positive 0 5 five_sole
              eq_refl)
    as [(v & m1 & Hnew & _ & Hback & _) (w & n1 & Hnew' & _ & Hdangle)].
  split.
  - exists v, m1. split; [exact Hnew | exact Hback].
  - exists w, n1. split; [exact Hnew' |].
    apply (Hdangle 1 0). vm_compute. split; discriminate.
Defined.

Lemma guard_is_the_only_check_witness :
  1 <= 6 <= static_cast_int 6 /\
  (exists b ofs buf,
     Ptr 1 0 = Ptr b ofs /\ blocks five !! b = Some buf /\
     buf_size buf <= ofs + (6 - 1)) /\
  get 6 {| data_ := Ptr 1 0; length_ := 6; owner_ := None |} five = Undefined /\
  set 6 0 {| data_ := Ptr 1 0; length_ := 6; owner_ := None |} five = Undefined.
Proof.
  assert (Hin : 1 <= 6 <= static_cast_int 6) by (vm_compute; split; discriminate).
  assert (Hpast : exists b ofs buf,
             Ptr 1 0 = Ptr b ofs /\ blocks five !! b = Some buf /\
             buf_size buf <= ofs + (6 - 1)).
  { exists 1%positive, 0, (buffer_of_list 0 [10; 20; 30; 40; 50]).
    split; [reflexivity |]. split; [reflexivity |]. vm_compute. discriminate. }
  split; [exact Hin |]. split; [exact Hpast |].
  exact (guard_is_the_only_check
           {| data_ := Ptr 1 0; length_ := 6; owner_ := None |} five 6 0
           Hin (or_intror Hpast)).
Defined.
